(** * A shallow embedding of the SmartPy lottery contract (src/lottery.py)

    The contract keeps one storage record and exposes four entry points,
    [buy_ticket], [change_ticket_cost], [change_max_tickets] and [end_game].
    Each entry point is a sequence of SmartPy commands over [self.data];
    the commands are embedded in a small state-and-failure monad [M] that
    threads the storage and the list of emitted operations and stops at the
    first failing command.  A failed run still reports the storage it had
    reached, so that "nothing was written before the failure" is a property
    that is proved about the code and not one that the model assumes.

    Numbers: [sp.TNat] is [nat]; [sp.TMutez] is [N], with the subtraction of
    mutez failing below zero and [sp.mul] the exact product (the source puts
    no bound on either; a purchase that commits has [total_cost ≤ amount], so
    the product fits wherever the attached amount does); [sp.TTimestamp] and
    [sp.TInt] are [Z]. *)

From stdpp Require Import gmap strings list fin_maps.
From Stdlib Require Import ZArith NArith Lia.
From Equations Require Import Equations.

(** ** Data *)

Definition address := string.

(** [self.data], as initialised by [Lottery.__init__]. *)
Record storage := mk_storage {
  players : gmap nat address;
  ticket_cost : N;
  tickets_available : nat;
  max_tickets : nat;
  admin : address
}.

(** What the environment supplies with a call: [sp.sender], [sp.amount],
    [sp.now] and [sp.balance]. *)
Record context := mk_context {
  sender : address;
  amount : N;
  now : Z;
  balance : N
}.

(** [sp.send(to, amt)] emits one transfer. *)
Inductive operation := Transfer (to : address) (amt : N).

(** The ways a command can fail: [sp.verify(_, msg)] fails with its message;
    the others are the failures built into [sp.as_nat], the subtraction of
    mutez, [%] and the map lookup [m[k]]. *)
Inductive failure :=
| FailWith (msg : string)
| AsNatNegative
| MutezUnderflow
| DivisionByZero
| MissingKey.

Definition NoTicketsAvailable : failure := FailWith "NO TICKETS AVAILABLE".
Definition InsufficientPayment : failure := FailWith "INVALID AMOUNT".
Definition NotAuthorized : failure := FailWith "NOT AUTHORIZED".
Definition RoundAlreadyStarted : failure := FailWith "GAME ALREADY STARTED".
Definition RoundNotFinished : failure := FailWith "GAME IS YET TO END".

#[global] Instance operation_eq_dec : EqDecision operation.
Proof. solve_decision. Defined.

#[global] Instance failure_eq_dec : EqDecision failure.
Proof. solve_decision. Defined.

(** ** The command monad *)

(** The storage being written and the operations emitted so far. *)
Record machine := mk_machine {
  data : storage;
  operations : list operation
}.

Inductive outcome (A : Type) :=
| Done (a : A)
| Failed (f : failure).
Arguments Done {A} a.
Arguments Failed {A} f.

Definition M (A : Type) : Type := machine → outcome A * machine.

#[global] Instance M_ret : MRet M := λ A a m, (Done a, m).

#[global] Instance M_bind : MBind M := λ A B f c m,
  match c m with
  | (Done a, m') => f a m'
  | (Failed e, m') => (Failed e, m')
  end.

(** [sp.failwith(e)] *)
Definition failwith {A} (e : failure) : M A := λ m, (Failed e, m).

Definition get_data : M storage := λ m, (Done (data m), m).

Definition set_data (f : storage → storage) : M unit :=
  λ m, (Done tt, mk_machine (f (data m)) (operations m)).

(** [sp.verify(cond, msg)] *)
Definition verify (cond : bool) (msg : failure) : M unit :=
  if cond then mret tt else failwith msg.

(** [sp.as_nat(z)] *)
Definition as_nat (z : Z) : M nat :=
  if (z <? 0)%Z then failwith AsNatNegative else mret (Z.to_nat z).

(** [a - b] on mutez *)
Definition mutez_sub (a b : N) : M N :=
  if (a <? b)%N then failwith MutezUnderflow else mret (a - b)%N.

(** [a % b] on naturals *)
Definition nat_mod (a b : nat) : M nat :=
  if b =? 0 then failwith DivisionByZero else mret (a mod b).

(** [m[k]] read from a map *)
Definition map_get (m : gmap nat address) (k : nat) : M address :=
  match m !! k with
  | Some v => mret v
  | None => failwith MissingKey
  end.

(** [sp.send(to, amt)] *)
Definition send (to : address) (amt : N) : M unit :=
  λ m, (Done tt, mk_machine (data m) (operations m ++ [Transfer to amt])).

(** Field updates of [self.data]. *)
Definition with_players (p : gmap nat address) (s : storage) : storage :=
  mk_storage p (ticket_cost s) (tickets_available s) (max_tickets s) (admin s).
Definition with_ticket_cost (c : N) (s : storage) : storage :=
  mk_storage (players s) c (tickets_available s) (max_tickets s) (admin s).
Definition with_tickets_available (n : nat) (s : storage) : storage :=
  mk_storage (players s) (ticket_cost s) n (max_tickets s) (admin s).
Definition with_max_tickets (n : nat) (s : storage) : storage :=
  mk_storage (players s) (ticket_cost s) (tickets_available s) n (admin s).

(** ** The contract *)

(** [Lottery.__init__]: [sp.tez(1)] is 1000000 mutez. *)
Definition init : storage :=
  mk_storage ∅ 1000000%N 5 5 "tz1i1THJ4MHiqTWsHNcZNU4YT8tPtqZW5NYE".

(** One assignment [self.data.players[sp.len(self.data.players)] = who]. *)
Definition add_player (who : address) : M unit :=
  set_data (λ s, with_players (<[size (players s) := who]> (players s)) s).

(** The loop of [buy_ticket]:
    [sp.while idx.value < can_buy.value: ...; idx.value += 1]. *)
Equations? while_idx (idx can_buy : nat) (who : address) : M unit
  by wf (can_buy - idx) lt :=
  while_idx idx can_buy who with lt_dec idx can_buy := {
    | left _ => add_player who ;; while_idx (S idx) can_buy who
    | right _ => mret tt
  }.
Proof. lia. Defined.

(** The local [can_buy]: the request, cut down to what is left. *)
Definition can_buy (num_tickets : nat) (s : storage) : nat :=
  if tickets_available s <? num_tickets then tickets_available s
  else num_tickets.

(** The local [total_cost]: [sp.mul(can_buy.value, self.data.ticket_cost)]. *)
Definition total_cost (num_tickets : nat) (s : storage) : N :=
  (N.of_nat (can_buy num_tickets s) * ticket_cost s)%N.

Definition buy_ticket (num_tickets : nat) (ctx : context) : M unit :=
  s ← get_data;
  verify (0 <? tickets_available s) NoTicketsAvailable ;;
  let can_buy := can_buy num_tickets s in
  let total_cost := total_cost num_tickets s in
  verify (total_cost <=? amount ctx)%N InsufficientPayment ;;
  while_idx 0 can_buy (sender ctx) ;;
  s ← get_data;
  remaining ← as_nat (Z.of_nat (tickets_available s) - Z.of_nat can_buy);
  set_data (with_tickets_available remaining) ;;
  extra_balance ← mutez_sub (amount ctx) total_cost;
  if (0 <? extra_balance)%N then send (sender ctx) extra_balance else mret tt.

Definition change_ticket_cost (new_ticket_cost : N) (ctx : context) : M unit :=
  s ← get_data;
  verify (bool_decide (sender ctx = admin s)) NotAuthorized ;;
  verify (tickets_available s =? max_tickets s) RoundAlreadyStarted ;;
  set_data (with_ticket_cost new_ticket_cost).

Definition change_max_tickets (new_max_tickets : nat) (ctx : context) : M unit :=
  s ← get_data;
  verify (bool_decide (sender ctx = admin s)) NotAuthorized ;;
  verify (tickets_available s =? max_tickets s) RoundAlreadyStarted ;;
  set_data (with_max_tickets new_max_tickets) ;;
  s ← get_data;
  set_data (with_tickets_available (max_tickets s)).

(** The local [winner_id]:
    [sp.as_nat(sp.now - sp.timestamp(0)) % self.data.max_tickets]. *)
Definition winner_id (ctx : context) (s : storage) : M nat :=
  elapsed ← as_nat (now ctx - 0);
  nat_mod elapsed (max_tickets s).

Definition end_game (ctx : context) : M unit :=
  s ← get_data;
  verify (tickets_available s =? 0) RoundNotFinished ;;
  winner_id ← winner_id ctx s;
  winner_address ← map_get (players s) winner_id;
  send winner_address (balance ctx) ;;
  set_data (with_players ∅) ;;
  s ← get_data;
  set_data (with_tickets_available (max_tickets s)).

(** ** Calls *)

Inductive call :=
| BuyTicket (num_tickets : nat)
| ChangeTicketCost (new_ticket_cost : N)
| ChangeMaxTickets (new_max_tickets : nat)
| EndGame.

Definition entry_point (c : call) : context → M unit :=
  match c with
  | BuyTicket n => buy_ticket n
  | ChangeTicketCost c => change_ticket_cost c
  | ChangeMaxTickets n => change_max_tickets n
  | EndGame => end_game
  end.

(** Running an entry point on a storage, with no operation emitted yet. *)
Definition exec (c : call) (ctx : context) (s : storage) : outcome unit * machine :=
  entry_point c ctx (mk_machine s []).

(** What the caller observes: a failed call is rejected as a whole, a call
    that runs to its end commits its storage and its operations. *)
Definition transact (c : call) (ctx : context) (s : storage)
  : failure + storage * list operation :=
  match exec c ctx s with
  | (Done _, m) => inr (data m, operations m)
  | (Failed e, _) => inl e
  end.

(** The states the contract can be in: the initial storage and whatever a
    committed call leaves. *)
Inductive reachable : storage → Prop :=
| reachable_init : reachable init
| reachable_step c ctx s s' ops :
    reachable s → transact c ctx s = inr (s', ops) → reachable s'.

(** ** Vocabulary of the specification *)

(** The ledger is keyed by the dense ticket indices [0 .. size - 1]. *)
Definition dense (p : gmap nat address) : Prop := dom p = set_seq 0 (size p).

(** The ledger after [k] more tickets went to [who], each at the next index. *)
Fixpoint append_tickets (k : nat) (who : address) (p : gmap nat address)
  : gmap nat address :=
  match k with
  | 0 => p
  | S k' => append_tickets k' who (<[size p := who]> p)
  end.

(** The total amount the operations send to [who]. *)
Fixpoint refund_to (who : address) (ops : list operation) : N :=
  match ops with
  | [] => 0
  | Transfer to amt :: rest =>
      ((if bool_decide (to = who) then amt else 0) + refund_to who rest)%N
  end.

(** The storage a purchase of [num_tickets] leaves. *)
Definition bought (num_tickets : nat) (ctx : context) (s : storage) : storage :=
  mk_storage
    (append_tickets (can_buy num_tickets s) (sender ctx) (players s))
    (ticket_cost s)
    (tickets_available s - can_buy num_tickets s)
    (max_tickets s)
    (admin s).

(** The operations a purchase of [num_tickets] emits. *)
Definition refund (num_tickets : nat) (ctx : context) (s : storage)
  : list operation :=
  if (total_cost num_tickets s <? amount ctx)%N
  then [Transfer (sender ctx) (amount ctx - total_cost num_tickets s)]
  else [].

(** The storage a finished round is reset to. *)
Definition fresh (s : storage) : storage :=
  mk_storage ∅ (ticket_cost s) (max_tickets s) (max_tickets s) (admin s).

(** The invariants of the data model. *)
Record wf (s : storage) : Prop := mk_wf {
  wf_dense : dense (players s);
  wf_available : tickets_available s ≤ max_tickets s;
  wf_sold : size (players s) = max_tickets s - tickets_available s
}.

(** ** Concrete storages and calls *)

Definition bob : address := "bob".
Definition mike : address := "mike".
Definition charles : address := "charles".

Definition tez (n : N) : N := (n * 1000000)%N.

Definition sold_out : storage :=
  mk_storage {[0 := bob; 1 := mike; 2 := mike; 3 := charles; 4 := charles]}
    (tez 1) 0 5 (admin init).

(** A call that attaches [amt], and a call made at time [t] while the
    contract holds [bal]. *)
Definition paying (who : address) (amt : N) : context :=
  mk_context who amt 0 amt.
Definition at_time (who : address) (t : Z) (bal : N) : context :=
  mk_context who 0 t bal.

(** A storage no run of the contract produces: one ticket sold, kept under
    index 1. *)
Definition gapped : storage :=
  mk_storage {[1 := bob]} (tez 1) 4 5 (admin init).

Definition alice : address := "alice".
Definition john : address := "john".

(** The environment of a test scenario: it keeps the contract's balance,
    credits what a call attaches, debits what a committed call sends, and
    leaves everything as it was when a call fails. *)
Definition sent (ops : list operation) : N :=
  foldr (λ op acc, match op with Transfer _ amt => (amt + acc)%N end) 0%N ops.

Record run_call := mk_run {
  run_entry : call;
  run_sender : address;
  run_amount : N;
  run_now : Z
}.

Fixpoint replay (calls : list run_call) (s : storage) (bal : N)
  : list bool * storage * N :=
  match calls with
  | [] => ([], s, bal)
  | r :: rest =>
      let ctx :=
        mk_context (run_sender r) (run_amount r) (run_now r) (bal + run_amount r) in
      match transact (run_entry r) ctx s with
      | inr (s', ops) =>
          let '(valid, s'', bal') :=
            replay rest s' (bal + run_amount r - sent ops) in
          (true :: valid, s'', bal')
      | inl _ =>
          let '(valid, s'', bal') := replay rest s bal in
          (false :: valid, s'', bal')
      end
  end.

(** The calls of the source's test, in order. *)
Definition test_calls : list run_call :=
  [ mk_run (BuyTicket 1) bob (tez 2) 0;
    mk_run (BuyTicket 2) mike (tez 2) 0;
    mk_run (BuyTicket 2) charles (tez 5) 0;
    mk_run EndGame (admin init) 0 20;
    mk_run (BuyTicket 3) bob (tez 2) 20;
    mk_run (BuyTicket 6) bob (tez 6) 20;
    mk_run (BuyTicket 1) john (tez 1) 20;
    mk_run EndGame (admin init) 0 20;
    mk_run (ChangeTicketCost (tez 2)) (admin init) 0 20;
    mk_run (ChangeTicketCost (tez 3)) alice 0 20;
    mk_run (ChangeMaxTickets 10) (admin init) 0 20;
    mk_run (ChangeMaxTickets 15) bob 0 20;
    mk_run (BuyTicket 1) alice (tez 2) 20;
    mk_run (ChangeMaxTickets 15) (admin init) 0 20;
    mk_run EndGame (admin init) 0 20;
    mk_run (BuyTicket 9) bob (tez 18) 20;
    mk_run EndGame (admin init) 0 2023 ].

(** ** Vocabulary of the further properties *)

(** The number of tickets [who] holds in the ledger. *)
Definition tickets_held (who : address) (p : gmap nat address) : nat :=
  size (filter (λ kv : nat * address, kv.2 = who) p).

(** Whom [end_game] pays when called with [ctx], if it commits. *)
Definition pays_to (ctx : context) (s : storage) : option address :=
  match exec EndGame ctx s with
  | (Done _, m) =>
      match operations m with
      | [Transfer w _] => Some w
      | _ => None
      end
  | (Failed _, _) => None
  end.

(** The instants [q * max_tickets + k], [k < max_tickets], of the [q]-th
    full period at which [end_game] would pay [who]. *)
Definition winning_instants (who : address) (q : nat) (bal : N) (s : storage)
  : list nat :=
  filter
    (λ k, pays_to (at_time who (Z.of_nat (q * max_tickets s + k)) bal) s = Some who)
    (seq 0 (max_tickets s)).

(** The held balance covers the price of the tickets sold in the round. *)
Definition pot_covers (s : storage) (bal : N) : Prop :=
  (N.of_nat (size (players s)) * ticket_cost s ≤ bal)%N.

(** ** Proof automation *)

Ltac run_commands :=
  unfold exec, entry_point, buy_ticket, change_ticket_cost, change_max_tickets,
    end_game, winner_id, mbind, M_bind, mret, M_ret, get_data, set_data, verify,
    failwith, as_nat, mutez_sub, nat_mod, map_get, send;
  simpl.

(** ** Test scenario of the source, replayed *)

(** Every call the test marks [valid = False] is rejected, every other one
    commits, and the last round ends fresh with the balance paid out. *)
Example scenario_replayed :
  replay test_calls init 0
  = ([true; true; true; true; false; true; false; true; true; false; true;
      false; true; false; false; true; true],
     mk_storage ∅ (tez 2) 10 10 (admin init), 0%N).
Proof. vm_compute. reflexivity. Qed.

Example scenario_bob :
  transact (BuyTicket 1) (mk_context bob (tez 2) 0 (tez 2)) init
  = inr (mk_storage {[0 := bob]} (tez 1) 4 5 (admin init), [Transfer bob (tez 1)]).
Proof. vm_compute. reflexivity. Qed.

Example scenario_dense : dense (players sold_out).
Proof. vm_compute. reflexivity. Qed.

Example scenario_end :
  transact EndGame (mk_context (admin init) 0 20 (tez 5)) sold_out
  = inr (init, [Transfer bob (tez 5)]).
Proof. vm_compute. reflexivity. Qed.

(** ** The ledger of tickets *)

Lemma dense_lookup (p : gmap nat address) k :
  dense p → is_Some (p !! k) ↔ k < size p.
Proof.
  intros Hd. rewrite <- elem_of_dom, Hd, elem_of_set_seq. lia.
Qed.

Lemma dense_next_free (p : gmap nat address) : dense p → p !! size p = None.
Proof.
  intros Hd. apply eq_None_not_Some. rewrite dense_lookup by done. lia.
Qed.

Lemma dense_empty : dense (∅ : gmap nat address).
Proof. unfold dense. rewrite dom_empty_L, map_size_empty. done. Qed.

Lemma size_insert_next (p : gmap nat address) who :
  dense p → size (<[size p := who]> p) = S (size p).
Proof. intros Hd. apply map_size_insert_None, dense_next_free, Hd. Qed.

Lemma dense_insert_next (p : gmap nat address) who :
  dense p → dense (<[size p := who]> p).
Proof.
  intros Hd. unfold dense. rewrite size_insert_next by done.
  rewrite dom_insert_L, set_seq_S_end_union_L, <- Hd. done.
Qed.

Lemma dense_append_tickets k who (p : gmap nat address) :
  dense p → dense (append_tickets k who p).
Proof.
  revert p. induction k as [|k IH]; intros p Hd; simpl; [done|].
  apply IH, dense_insert_next, Hd.
Qed.

Lemma size_append_tickets k who (p : gmap nat address) :
  dense p → size (append_tickets k who p) = size p + k.
Proof.
  revert p. induction k as [|k IH]; intros p Hd; simpl; [lia|].
  rewrite IH by (by apply dense_insert_next).
  rewrite size_insert_next by done. lia.
Qed.

Lemma lookup_append_tickets k who (p : gmap nat address) i :
  dense p →
  append_tickets k who p !! i
  = if decide (size p ≤ i < size p + k) then Some who else p !! i.
Proof.
  revert p. induction k as [|k IH]; intros p Hd; simpl.
  - case_decide; [lia|done].
  - rewrite IH by (by apply dense_insert_next).
    rewrite size_insert_next by done.
    destruct (decide (i = size p)) as [->|Hne].
    + rewrite lookup_insert_eq. repeat case_decide; try lia; done.
    + rewrite lookup_insert_ne by done. repeat case_decide; try lia; done.
Qed.

(** ** Running the commands *)

Lemma machine_eta m : mk_machine (data m) (operations m) = m.
Proof. by destruct m. Qed.

Lemma with_players_same s : with_players (players s) s = s.
Proof. by destruct s. Qed.

(** The loop always ends, after [can_buy - idx] rounds, and only the ledger
    has changed. *)
Lemma while_idx_run idx cb who m :
  while_idx idx cb who m
  = (Done tt,
     mk_machine
       (with_players (append_tickets (cb - idx) who (players (data m))) (data m))
       (operations m)).
Proof.
  remember (cb - idx) as k eqn:Hk. revert idx m Hk.
  induction k as [|k IH]; intros idx m Hk; simp while_idx;
    destruct (lt_dec idx cb) as [Hlt|Hge]; simpl; try lia.
  - by rewrite with_players_same, machine_eta.
  - unfold mbind, M_bind, add_player, set_data at 1. simpl.
    rewrite IH by lia. done.
Qed.

Lemma can_buy_le n s : can_buy n s ≤ tickets_available s.
Proof. unfold can_buy. destruct (Nat.ltb_spec (tickets_available s) n); lia. Qed.

Lemma can_buy_min n s : can_buy n s = n `min` tickets_available s.
Proof. unfold can_buy. destruct (Nat.ltb_spec (tickets_available s) n); lia. Qed.

(** What [buy_ticket] does, case by case. *)
Lemma buy_ticket_run n ctx s :
  exec (BuyTicket n) ctx s
  = if tickets_available s =? 0
    then (Failed NoTicketsAvailable, mk_machine s [])
    else if (amount ctx <? total_cost n s)%N
    then (Failed InsufficientPayment, mk_machine s [])
    else (Done tt, mk_machine (bought n ctx s) (refund n ctx s)).
Proof.
  run_commands.
  destruct (Nat.eqb_spec (tickets_available s) 0) as [Hz|Hnz].
  { rewrite Hz. done. }
  destruct (Nat.ltb_spec 0 (tickets_available s)); [simpl|lia].
  rewrite N.leb_antisym.
  destruct (N.ltb_spec (amount ctx) (total_cost n s)) as [Hlt|Hle]; simpl; [done|].
  rewrite while_idx_run. simpl.
  pose proof (can_buy_le n s) as Hcb.
  destruct (Z.ltb_spec (Z.of_nat (tickets_available s) - Z.of_nat (can_buy n s)) 0);
    [lia|]. simpl.
  destruct (N.ltb_spec (amount ctx) (total_cost n s)); [lia|]. simpl.
  unfold bought, refund, with_tickets_available. simpl.
  replace (Z.to_nat (Z.of_nat (tickets_available s) - Z.of_nat (can_buy n s)))
    with (tickets_available s - can_buy n s) by lia.
  rewrite Nat.sub_0_r.
  destruct (N.ltb_spec 0 (amount ctx - total_cost n s));
    destruct (N.ltb_spec (total_cost n s) (amount ctx)); try lia; done.
Qed.

(** What the two configuration entry points do, case by case. *)
Lemma change_ticket_cost_run c ctx s :
  exec (ChangeTicketCost c) ctx s
  = if bool_decide (sender ctx = admin s)
    then if tickets_available s =? max_tickets s
         then (Done tt, mk_machine (with_ticket_cost c s) [])
         else (Failed RoundAlreadyStarted, mk_machine s [])
    else (Failed NotAuthorized, mk_machine s []).
Proof.
  run_commands. case_bool_decide; simpl; [|done].
  destruct (tickets_available s =? max_tickets s); done.
Qed.

Lemma change_max_tickets_run n ctx s :
  exec (ChangeMaxTickets n) ctx s
  = if bool_decide (sender ctx = admin s)
    then if tickets_available s =? max_tickets s
         then (Done tt,
               mk_machine (mk_storage (players s) (ticket_cost s) n n (admin s)) [])
         else (Failed RoundAlreadyStarted, mk_machine s [])
    else (Failed NotAuthorized, mk_machine s []).
Proof.
  run_commands. case_bool_decide; simpl; [|done].
  destruct (tickets_available s =? max_tickets s); done.
Qed.

(** What [end_game] does, case by case. *)
Lemma end_game_run ctx s :
  exec EndGame ctx s
  = if tickets_available s =? 0
    then if (now ctx <? 0)%Z
         then (Failed AsNatNegative, mk_machine s [])
         else if max_tickets s =? 0
         then (Failed DivisionByZero, mk_machine s [])
         else match players s !! (Z.to_nat (now ctx) mod max_tickets s) with
              | Some w => (Done tt, mk_machine (fresh s) [Transfer w (balance ctx)])
              | None => (Failed MissingKey, mk_machine s [])
              end
    else (Failed RoundNotFinished, mk_machine s []).
Proof.
  run_commands. rewrite Z.sub_0_r.
  destruct (tickets_available s =? 0); simpl; [|done].
  destruct (now ctx <? 0)%Z; simpl; [done|].
  destruct (max_tickets s =? 0); simpl; [done|].
  destruct (players s !! _); done.
Qed.

(** A failed call has written nothing and emitted nothing, whichever entry
    point it was. *)
Lemma exec_failed_untouched c ctx s f m :
  exec c ctx s = (Failed f, m) → m = mk_machine s [].
Proof.
  destruct c.
  - rewrite buy_ticket_run. repeat case_match; congruence.
  - rewrite change_ticket_cost_run. repeat case_match; congruence.
  - rewrite change_max_tickets_run. repeat case_match; congruence.
  - rewrite end_game_run. repeat case_match; congruence.
Qed.

(** Committed calls, entry point by entry point. *)
Lemma transact_buy_ticket n ctx s s' ops :
  transact (BuyTicket n) ctx s = inr (s', ops) →
  0 < tickets_available s ∧ (total_cost n s ≤ amount ctx)%N
  ∧ s' = bought n ctx s ∧ ops = refund n ctx s.
Proof.
  unfold transact. rewrite buy_ticket_run.
  destruct (Nat.eqb_spec (tickets_available s) 0); [done|].
  destruct (N.ltb_spec (amount ctx) (total_cost n s)); [done|].
  intros [= <- <-]. repeat split; [lia|done].
Qed.

Lemma transact_change_ticket_cost c ctx s s' ops :
  transact (ChangeTicketCost c) ctx s = inr (s', ops) →
  sender ctx = admin s ∧ tickets_available s = max_tickets s
  ∧ s' = with_ticket_cost c s ∧ ops = [].
Proof.
  unfold transact. rewrite change_ticket_cost_run.
  case_bool_decide; [|done].
  destruct (Nat.eqb_spec (tickets_available s) (max_tickets s)); [|done].
  by intros [= <- <-].
Qed.

Lemma transact_change_max_tickets n ctx s s' ops :
  transact (ChangeMaxTickets n) ctx s = inr (s', ops) →
  sender ctx = admin s ∧ tickets_available s = max_tickets s
  ∧ s' = mk_storage (players s) (ticket_cost s) n n (admin s) ∧ ops = [].
Proof.
  unfold transact. rewrite change_max_tickets_run.
  case_bool_decide; [|done].
  destruct (Nat.eqb_spec (tickets_available s) (max_tickets s)); [|done].
  by intros [= <- <-].
Qed.

Lemma transact_end_game ctx s s' ops :
  transact EndGame ctx s = inr (s', ops) →
  tickets_available s = 0 ∧ (0 ≤ now ctx)%Z ∧ 0 < max_tickets s
  ∧ s' = fresh s
  ∧ ∃ w, players s !! (Z.to_nat (now ctx) mod max_tickets s) = Some w
         ∧ ops = [Transfer w (balance ctx)].
Proof.
  unfold transact. rewrite end_game_run.
  destruct (Nat.eqb_spec (tickets_available s) 0); [|done].
  destruct (Z.ltb_spec (now ctx) 0); [done|].
  destruct (Nat.eqb_spec (max_tickets s) 0); [done|].
  destruct (players s !! _) as [w|] eqn:Hw; [|done].
  intros [= <- <-]. repeat split; try done; try lia. eauto.
Qed.

(** ** The invariants *)

Lemma wf_init : wf init.
Proof.
  split; simpl; [apply dense_empty|lia|by rewrite map_size_empty].
Qed.

(** The invariants of the data model, the dense keys of the ledger among
    them, are kept by every committed call. *)
Lemma wf_step c ctx s s' ops :
  wf s → transact c ctx s = inr (s', ops) → wf s'.
Proof.
  intros [Hd Hle Hsz] Ht. destruct c.
  - apply transact_buy_ticket in Ht as (_ & _ & -> & _).
    pose proof (can_buy_le num_tickets s).
    split; simpl.
    + by apply dense_append_tickets.
    + lia.
    + rewrite size_append_tickets by done. lia.
  - apply transact_change_ticket_cost in Ht as (_ & _ & -> & _). by split.
  - apply transact_change_max_tickets in Ht as (_ & Hfresh & -> & _).
    split; simpl; [done|lia|lia].
  - apply transact_end_game in Ht as (_ & _ & _ & -> & _).
    split; simpl; [apply dense_empty|lia|rewrite map_size_empty; lia].
Qed.

Lemma reachable_wf s : reachable s → wf s.
Proof.
  induction 1 as [|c ctx s s' ops _ IH Ht]; [apply wf_init|].
  by eapply wf_step.
Qed.

Lemma reachable_invariant s :
  reachable s →
  tickets_available s ≤ max_tickets s
  ∧ size (players s) = max_tickets s - tickets_available s.
Proof. intros [_ ? ?]%reachable_wf. done. Qed.

(** The two counting invariants alone do not carry over a purchase: the
    ledger must also be keyed by the dense indices, as it is in every
    reachable state.  On [gapped] the new ticket is written over index 1. *)
Remark invariant_step_needs_dense :
  tickets_available gapped ≤ max_tickets gapped
  ∧ size (players gapped) = max_tickets gapped - tickets_available gapped
  ∧ ¬ dense (players gapped)
  ∧ transact (BuyTicket 1) (paying mike (tez 1)) gapped
    = inr (mk_storage {[1 := mike]} (tez 1) 3 5 (admin init), []).
Proof.
  split; [simpl; lia|]. split; [by vm_compute|].
  split; [|by vm_compute].
  intros Hd. pose proof (dense_next_free _ Hd) as Hn. by vm_compute in Hn.
Qed.

(** ** The claims *)

(** C1. After every committed call of any of the four entry points the
    storage satisfies [tickets_available ≤ max_tickets] and
    [|players| = max_tickets - tickets_available], provided the storage before
    the call satisfied them, its ledger being keyed by the dense ticket
    indices of the data model (which every reachable storage is,
    [reachable_wf]). *)
Theorem invariant_after_call c ctx s s' ops :
  dense (players s) →
  tickets_available s ≤ max_tickets s →
  size (players s) = max_tickets s - tickets_available s →
  transact c ctx s = inr (s', ops) →
  tickets_available s' ≤ max_tickets s'
  ∧ size (players s') = max_tickets s' - tickets_available s'.
Proof.
  intros Hd Hle Hsz Ht.
  destruct (wf_step c ctx s s' ops (mk_wf _ Hd Hle Hsz) Ht) as [_ ? ?]. done.
Qed.

Lemma invariant_after_call_witness :
  let ctx := paying bob (tez 6) in
  tickets_available (bought 6 ctx init) ≤ max_tickets (bought 6 ctx init)
  ∧ size (players (bought 6 ctx init))
    = max_tickets (bought 6 ctx init) - tickets_available (bought 6 ctx init).
Proof.
  apply (invariant_after_call (BuyTicket 6) (paying bob (tez 6)) init
           (bought 6 (paying bob (tez 6)) init)
           (refund 6 (paying bob (tez 6)) init)).
  - vm_compute. reflexivity.
  - simpl. lia.
  - vm_compute. reflexivity.
  - vm_compute. reflexivity.
Defined.

(** C2. When [end_game] is called with [tickets_available = 0] on a storage
    that satisfies the invariants of the data model, a winner index that is
    computed lies in [0, max_tickets) and is a key of [players]: the call
    never fails on a missing key.  From the time origin on, and with the
    capacity of at least one ticket that the data model declares, the index is
    [(now - 0) mod max_tickets] and the call commits. *)
Theorem end_game_winner_found ctx s :
  dense (players s) →
  size (players s) = max_tickets s - tickets_available s →
  tickets_available s = 0 →
  (∀ m w m', winner_id ctx s m = (Done w, m') →
     w < max_tickets s ∧ is_Some (players s !! w))
  ∧ (exec EndGame ctx s).1 ≠ Failed MissingKey
  ∧ ((0 ≤ now ctx)%Z → 1 ≤ max_tickets s →
     ∃ w, Z.to_nat (now ctx) mod max_tickets s < max_tickets s
       ∧ players s !! (Z.to_nat (now ctx) mod max_tickets s) = Some w
       ∧ transact EndGame ctx s = inr (fresh s, [Transfer w (balance ctx)])).
Proof.
  intros Hd Hsz Hta.
  assert (Hkey : 0 < max_tickets s →
                 is_Some (players s !! (Z.to_nat (now ctx) mod max_tickets s))).
  { intros Hmax. apply dense_lookup; [done|]. rewrite Hsz, Hta, Nat.sub_0_r.
    apply Nat.mod_upper_bound. lia. }
  split; [|split].
  - intros m w m'. run_commands. rewrite Z.sub_0_r.
    destruct (now ctx <? 0)%Z; simpl; [done|].
    destruct (Nat.eqb_spec (max_tickets s) 0); simpl; [done|].
    intros [= <- <-]. split; [apply Nat.mod_upper_bound; lia|apply Hkey; lia].
  - rewrite end_game_run.
    destruct (tickets_available s =? 0); [|done].
    destruct (now ctx <? 0)%Z; [done|].
    destruct (Nat.eqb_spec (max_tickets s) 0); [done|].
    destruct Hkey as [w ->]; [lia|done].
  - intros Hnow Hmax. destruct Hkey as [w Hw]; [lia|].
    exists w. split; [apply Nat.mod_upper_bound; lia|]. split; [done|].
    unfold transact. rewrite end_game_run, Hta, Hw. simpl.
    destruct (Z.ltb_spec (now ctx) 0); [lia|].
    destruct (Nat.eqb_spec (max_tickets s) 0); [lia|done].
Qed.

Lemma end_game_winner_found_witness :
  ∃ w, Z.to_nat 20 mod 5 < 5
    ∧ players sold_out !! (Z.to_nat 20 mod 5) = Some w
    ∧ transact EndGame (at_time (admin init) 20 (tez 5)) sold_out
      = inr (fresh sold_out, [Transfer w (tez 5)]).
Proof.
  apply (end_game_winner_found (at_time (admin init) 20 (tez 5)) sold_out).
  - vm_compute. reflexivity.
  - vm_compute. reflexivity.
  - reflexivity.
  - simpl. lia.
  - simpl. lia.
Defined.

(** C3. A request for more tickets than are left, with some left and the
    price of those attached, does not fail: the caller gets exactly the
    [tickets_available] tickets, entered under the next indices of the ledger,
    and [tickets_available] drops to 0. *)
Theorem buy_ticket_clamps requested ctx s :
  dense (players s) →
  tickets_available s < requested →
  0 < tickets_available s →
  (N.of_nat (tickets_available s) * ticket_cost s ≤ amount ctx)%N →
  ∃ s' ops,
    transact (BuyTicket requested) ctx s = inr (s', ops)
    ∧ tickets_available s' = 0
    ∧ size (players s') = size (players s) + tickets_available s
    ∧ (∀ k, players s' !! k
            = if decide (size (players s) ≤ k
                         < size (players s) + tickets_available s)
              then Some (sender ctx) else players s !! k)
    ∧ ticket_cost s' = ticket_cost s
    ∧ max_tickets s' = max_tickets s
    ∧ admin s' = admin s.
Proof.
  intros Hd Hreq Hta Hpay.
  assert (Hcb : can_buy requested s = tickets_available s).
  { rewrite can_buy_min. lia. }
  exists (bought requested ctx s), (refund requested ctx s).
  split; [|split; [|split; [|split]]].
  - unfold transact. rewrite buy_ticket_run.
    destruct (Nat.eqb_spec (tickets_available s) 0); [lia|].
    unfold total_cost. rewrite Hcb.
    destruct (N.ltb_spec (amount ctx) (N.of_nat (tickets_available s) * ticket_cost s));
      [lia|done].
  - simpl. rewrite Hcb. lia.
  - simpl. rewrite Hcb. by apply size_append_tickets.
  - intros k. simpl. rewrite Hcb. by apply lookup_append_tickets.
  - done.
Qed.

Lemma buy_ticket_clamps_witness :
  ∃ s' ops,
    transact (BuyTicket 6) (paying bob (tez 6)) init = inr (s', ops)
    ∧ tickets_available s' = 0
    ∧ size (players s') = 0 + 5
    ∧ (∀ k, players s' !! k
            = if decide (0 ≤ k < 0 + 5) then Some bob else players init !! k)
    ∧ ticket_cost s' = tez 1
    ∧ max_tickets s' = 5
    ∧ admin s' = admin init.
Proof.
  apply (buy_ticket_clamps 6 (paying bob (tez 6)) init).
  - vm_compute. reflexivity.
  - simpl. lia.
  - simpl. lia.
  - vm_compute. discriminate.
Defined.

(** C4, as amended. A committed [buy_ticket(n)] with [a] attached refunds
    the caller exactly [a - min(n, tickets_available) * ticket_cost]: one
    transfer when that is positive, none when [a] equals the cost.  When
    [n ≤ tickets_available] that is [a - n * ticket_cost]. *)
Theorem buy_ticket_refund n ctx s s' ops :
  transact (BuyTicket n) ctx s = inr (s', ops) →
  let cost := (N.of_nat (n `min` tickets_available s) * ticket_cost s)%N in
  (cost ≤ amount ctx)%N
  ∧ refund_to (sender ctx) ops = (amount ctx - cost)%N
  ∧ ops = (if (cost <? amount ctx)%N
           then [Transfer (sender ctx) (amount ctx - cost)] else [])
  ∧ (amount ctx = cost → ops = [])
  ∧ (n ≤ tickets_available s →
     refund_to (sender ctx) ops = (amount ctx - N.of_nat n * ticket_cost s)%N).
Proof.
  intros (_ & Hpay & _ & ->)%transact_buy_ticket. simpl.
  unfold refund, total_cost in *. rewrite can_buy_min in *.
  set (cost := (N.of_nat (n `min` tickets_available s) * ticket_cost s)%N) in *.
  assert (Hsum : refund_to (sender ctx)
                   (if (cost <? amount ctx)%N
                    then [Transfer (sender ctx) (amount ctx - cost)] else [])
                 = (amount ctx - cost)%N).
  { destruct (N.ltb_spec cost (amount ctx)); simpl; [|lia].
    rewrite bool_decide_eq_true_2 by done. lia. }
  split; [done|]. split; [done|]. split; [done|]. split.
  - intros ->. by rewrite N.ltb_irrefl.
  - intros Hn. rewrite Hsum. subst cost. by rewrite Nat.min_l.
Qed.

Lemma buy_ticket_refund_witness :
  (N.of_nat (2 `min` 2) * tez 1 ≤ tez 5)%N
  ∧ refund_to charles [Transfer charles (tez 3)]
    = (tez 5 - N.of_nat (2 `min` 2) * tez 1)%N
  ∧ [Transfer charles (tez 3)]
    = (if (N.of_nat (2 `min` 2) * tez 1 <? tez 5)%N
       then [Transfer charles (tez 5 - N.of_nat (2 `min` 2) * tez 1)] else [])
  ∧ (tez 5 = (N.of_nat (2 `min` 2) * tez 1)%N → [Transfer charles (tez 3)] = [])
  ∧ (2 ≤ 2 →
     refund_to charles [Transfer charles (tez 3)]
     = (tez 5 - N.of_nat 2 * tez 1)%N).
Proof.
  apply (buy_ticket_refund 2 (paying charles (tez 5))
           (mk_storage {[0 := bob; 1 := mike; 2 := mike]} (tez 1) 2 5 (admin init))
           sold_out [Transfer charles (tez 3)]).
  vm_compute. reflexivity.
Defined.

(** C4, as stated, fails on the source's own over-request: six tickets
    asked with 6 tez attached while five are left cost 5 tez, and 1 tez comes
    back, not [a - n * ticket_cost = 0]. *)
Lemma buy_ticket_refund_not_by_request :
  reachable init
  ∧ transact (BuyTicket 6) (paying bob (tez 6)) init
    = inr (bought 6 (paying bob (tez 6)) init, [Transfer bob (tez 1)])
  ∧ (N.of_nat 6 * ticket_cost init ≤ amount (paying bob (tez 6)))%N
  ∧ refund_to bob [Transfer bob (tez 1)]
    ≠ (amount (paying bob (tez 6)) - N.of_nat 6 * ticket_cost init)%N.
Proof.
  split; [constructor|]. split; [by vm_compute|]. split; by vm_compute.
Qed.

(** C5. [buy_ticket] fails exactly when no ticket is left, with
    [NoTicketsAvailable] whatever was attached, or when less than
    [granted * ticket_cost] is attached, with [InsufficientPayment]; in both
    cases the storage is as before the call and no operation was emitted.
    In the remaining case the call runs to its end. *)
Theorem buy_ticket_failures n ctx s :
  total_cost n s = (N.of_nat (n `min` tickets_available s) * ticket_cost s)%N
  ∧ (tickets_available s = 0 →
     exec (BuyTicket n) ctx s = (Failed NoTicketsAvailable, mk_machine s []))
  ∧ (0 < tickets_available s → (amount ctx < total_cost n s)%N →
     exec (BuyTicket n) ctx s = (Failed InsufficientPayment, mk_machine s []))
  ∧ (0 < tickets_available s → (total_cost n s ≤ amount ctx)%N →
     ∃ m, exec (BuyTicket n) ctx s = (Done tt, m))
  ∧ (∀ f m, exec (BuyTicket n) ctx s = (Failed f, m) →
     m = mk_machine s []
     ∧ (f = NoTicketsAvailable ∧ tickets_available s = 0
        ∨ f = InsufficientPayment ∧ 0 < tickets_available s
          ∧ (amount ctx < total_cost n s)%N)).
Proof.
  rewrite buy_ticket_run.
  split; [by unfold total_cost; rewrite can_buy_min|].
  destruct (Nat.eqb_spec (tickets_available s) 0) as [Hz|Hnz];
    [|destruct (N.ltb_spec (amount ctx) (total_cost n s)) as [Hlt|Hle]];
    (split; [|split; [|split]]).
  - done.
  - lia.
  - lia.
  - intros f m [= <- <-]. split; [done|]. by left.
  - done.
  - done.
  - lia.
  - intros f m [= <- <-]. split; [done|]. right. repeat split; [lia|done].
  - done.
  - lia.
  - eauto.
  - intros f m [=].
Qed.

(** C6. [change_ticket_cost] and [change_max_tickets] run to their end
    exactly when the caller is the admin and the round is fresh; another
    caller gets [NotAuthorized], whatever the round, and the admin on a
    started round gets [RoundAlreadyStarted]; a failed call leaves the
    storage as it was. *)
Theorem config_change_outcomes ctx s :
  (∀ c,
     (sender ctx ≠ admin s →
      exec (ChangeTicketCost c) ctx s = (Failed NotAuthorized, mk_machine s []))
     ∧ (sender ctx = admin s → tickets_available s ≠ max_tickets s →
        exec (ChangeTicketCost c) ctx s
        = (Failed RoundAlreadyStarted, mk_machine s []))
     ∧ (sender ctx = admin s → tickets_available s = max_tickets s →
        exec (ChangeTicketCost c) ctx s
        = (Done tt, mk_machine (with_ticket_cost c s) [])))
  ∧ (∀ n,
     (sender ctx ≠ admin s →
      exec (ChangeMaxTickets n) ctx s = (Failed NotAuthorized, mk_machine s []))
     ∧ (sender ctx = admin s → tickets_available s ≠ max_tickets s →
        exec (ChangeMaxTickets n) ctx s
        = (Failed RoundAlreadyStarted, mk_machine s []))
     ∧ (sender ctx = admin s → tickets_available s = max_tickets s →
        exec (ChangeMaxTickets n) ctx s
        = (Done tt,
           mk_machine (mk_storage (players s) (ticket_cost s) n n (admin s)) []))).
Proof.
  split; intros x;
    [rewrite change_ticket_cost_run|rewrite change_max_tickets_run];
    case_bool_decide;
    destruct (Nat.eqb_spec (tickets_available s) (max_tickets s));
    repeat split; intros; done.
Qed.

(** C7. After a committed [end_game] the ledger is empty and
    [tickets_available = max_tickets]; [ticket_cost], [max_tickets] and
    [admin] are as before; the one operation emitted sends the whole balance
    to the holder of the winning ticket. *)
Theorem end_game_resets ctx s s' ops :
  transact EndGame ctx s = inr (s', ops) →
  players s' = ∅
  ∧ tickets_available s' = max_tickets s
  ∧ ticket_cost s' = ticket_cost s
  ∧ max_tickets s' = max_tickets s
  ∧ admin s' = admin s
  ∧ ∃ winner,
      players s !! (Z.to_nat (now ctx - 0) mod max_tickets s) = Some winner
      ∧ ops = [Transfer winner (balance ctx)].
Proof.
  intros (_ & _ & _ & -> & w & Hw & ->)%transact_end_game.
  rewrite Z.sub_0_r. repeat split; eauto.
Qed.

Lemma end_game_resets_witness :
  players init = ∅
  ∧ tickets_available init = max_tickets sold_out
  ∧ ticket_cost init = ticket_cost sold_out
  ∧ max_tickets init = max_tickets sold_out
  ∧ admin init = admin sold_out
  ∧ ∃ winner,
      players sold_out !! (Z.to_nat (2023 - 0) mod max_tickets sold_out)
      = Some winner
      ∧ [Transfer charles (tez 5)] = [Transfer winner (tez 5)].
Proof.
  apply (end_game_resets (at_time (admin init) 2023 (tez 5)) sold_out init
           [Transfer charles (tez 5)]).
  vm_compute. reflexivity.
Defined.

(** C8, as amended. A committed call leaves [ticket_cost] as it was,
    except [change_ticket_cost], which stores its argument as given; so
    [ticket_cost > 0] carries over every committed call whose argument, when
    it is a new cost, is positive. *)
Theorem ticket_cost_after_call c ctx s s' ops :
  transact c ctx s = inr (s', ops) →
  ticket_cost s'
  = match c with
    | ChangeTicketCost new_cost => new_cost
    | _ => ticket_cost s
    end
  ∧ ((0 < ticket_cost s)%N →
     (∀ new_cost, c = ChangeTicketCost new_cost → (0 < new_cost)%N) →
     (0 < ticket_cost s')%N).
Proof.
  intros Ht.
  assert (Hcost : ticket_cost s'
                  = match c with
                    | ChangeTicketCost new_cost => new_cost
                    | _ => ticket_cost s
                    end).
  { destruct c.
    - by apply transact_buy_ticket in Ht as (_ & _ & -> & _).
    - by apply transact_change_ticket_cost in Ht as (_ & _ & -> & _).
    - by apply transact_change_max_tickets in Ht as (_ & _ & -> & _).
    - by apply transact_end_game in Ht as (_ & _ & _ & -> & _). }
  split; [done|]. intros Hpos Hnew. rewrite Hcost.
  destruct c; try done. by apply Hnew.
Qed.

Lemma ticket_cost_after_call_witness :
  ticket_cost (with_ticket_cost (tez 2) init) = tez 2
  ∧ ((0 < ticket_cost init)%N →
     (∀ new_cost, ChangeTicketCost (tez 2) = ChangeTicketCost new_cost →
                  (0 < new_cost)%N) →
     (0 < ticket_cost (with_ticket_cost (tez 2) init))%N).
Proof.
  apply (ticket_cost_after_call (ChangeTicketCost (tez 2))
           (paying (admin init) 0) init (with_ticket_cost (tez 2) init) []).
  vm_compute. reflexivity.
Defined.

(** C8, as stated, fails: the admin can set the cost of a fresh round to
    zero, and the call commits. *)
Lemma change_ticket_cost_accepts_zero :
  reachable init
  ∧ (0 < ticket_cost init)%N
  ∧ transact (ChangeTicketCost 0) (paying (admin init) 0) init
    = inr (with_ticket_cost 0 init, [])
  ∧ ¬ (0 < ticket_cost (with_ticket_cost 0 init))%N.
Proof.
  split; [constructor|]. split; [by vm_compute|]. split; [by vm_compute|].
  simpl. lia.
Qed.

(** C9. [buy_ticket(0)] with a ticket left commits and buys nothing: the
    storage is as before, the total cost is zero, and all that was attached
    goes back to the caller. *)
Theorem buy_zero_tickets ctx s :
  0 < tickets_available s →
  ∃ ops,
    transact (BuyTicket 0) ctx s = inr (s, ops)
    ∧ total_cost 0 s = 0%N
    ∧ ops = (if (0 <? amount ctx)%N
             then [Transfer (sender ctx) (amount ctx)] else [])
    ∧ refund_to (sender ctx) ops = amount ctx.
Proof.
  intros Hta.
  assert (Hcb : can_buy 0 s = 0) by (rewrite can_buy_min; lia).
  assert (Hcost : total_cost 0 s = 0%N) by (unfold total_cost; rewrite Hcb; lia).
  exists (refund 0 ctx s). split; [|split; [done|]].
  - unfold transact. rewrite buy_ticket_run, Hcost.
    destruct (Nat.eqb_spec (tickets_available s) 0); [lia|].
    destruct (N.ltb_spec (amount ctx) 0); [lia|].
    unfold bought. rewrite Hcb, Nat.sub_0_r. simpl. by destruct s.
  - unfold refund. rewrite Hcost, N.sub_0_r. split; [done|].
    destruct (N.ltb_spec 0 (amount ctx)); simpl; [|lia].
    rewrite bool_decide_eq_true_2 by done. lia.
Qed.

Lemma buy_zero_tickets_witness :
  ∃ ops,
    transact (BuyTicket 0) (paying bob (tez 2)) init = inr (init, ops)
    ∧ total_cost 0 init = 0%N
    ∧ ops = (if (0 <? tez 2)%N then [Transfer bob (tez 2)] else [])
    ∧ refund_to bob ops = tez 2.
Proof.
  apply (buy_zero_tickets (paying bob (tez 2)) init). simpl. lia.
Defined.

(** C10. [change_max_tickets] takes any natural number: called by the
    admin on a fresh round with 0 it commits, and leaves [max_tickets = 0] and
    [tickets_available = 0] over the empty ledger, where the guard of
    [end_game] is passed. *)
Theorem change_max_tickets_zero ctx s :
  sender ctx = admin s →
  tickets_available s = max_tickets s →
  size (players s) = max_tickets s - tickets_available s →
  ∃ s',
    transact (ChangeMaxTickets 0) ctx s = inr (s', [])
    ∧ max_tickets s' = 0
    ∧ tickets_available s' = 0
    ∧ players s' = ∅
    ∧ ∀ ctx', (exec EndGame ctx' s').1 ≠ Failed RoundNotFinished.
Proof.
  intros Hadm Hfresh Hsz.
  exists (mk_storage (players s) (ticket_cost s) 0 0 (admin s)).
  split; [|split; [done|split; [done|split]]].
  - unfold transact. rewrite change_max_tickets_run.
    rewrite bool_decide_eq_true_2 by done.
    destruct (Nat.eqb_spec (tickets_available s) (max_tickets s)); done.
  - simpl. apply map_size_empty_inv. lia.
  - intros ctx'. rewrite end_game_run. simpl. by destruct (now ctx' <? 0)%Z.
Qed.

Lemma change_max_tickets_zero_witness :
  ∃ s',
    transact (ChangeMaxTickets 0) (paying (admin init) 0) init = inr (s', [])
    ∧ max_tickets s' = 0
    ∧ tickets_available s' = 0
    ∧ players s' = ∅
    ∧ ∀ ctx', (exec EndGame ctx' s').1 ≠ Failed RoundNotFinished.
Proof.
  apply (change_max_tickets_zero (paying (admin init) 0) init).
  - reflexivity.
  - reflexivity.
  - vm_compute. reflexivity.
Defined.

(** With no capacity there is no ticket to draw: from the time origin on,
    [end_game] stops at the division. *)
Lemma end_game_zero_capacity ctx s :
  tickets_available s = 0 → max_tickets s = 0 → (0 ≤ now ctx)%Z →
  exec EndGame ctx s = (Failed DivisionByZero, mk_machine s []).
Proof.
  intros Hta Hmax Hnow. rewrite end_game_run, Hta, Hmax. simpl.
  by destruct (Z.ltb_spec (now ctx) 0); [lia|].
Qed.

(** ** Further properties of the contract *)

Lemma admin_step c ctx s s' ops :
  transact c ctx s = inr (s', ops) → admin s' = admin s.
Proof.
  destruct c; intros Ht.
  - by apply transact_buy_ticket in Ht as (_ & _ & -> & _).
  - by apply transact_change_ticket_cost in Ht as (_ & _ & -> & _).
  - by apply transact_change_max_tickets in Ht as (_ & _ & -> & _).
  - by apply transact_end_game in Ht as (_ & _ & _ & -> & _).
Qed.

Lemma reachable_bought_six : reachable (bought 6 (paying bob (tez 6)) init).
Proof.
  apply (reachable_step (BuyTicket 6) (paying bob (tez 6)) init _
           (refund 6 (paying bob (tez 6)) init) reachable_init).
  vm_compute. reflexivity.
Defined.

(** X1. In every storage the contract reaches from [__init__] the ledger
    is keyed by exactly the indices below the number of tickets sold, and
    that number is [max_tickets - tickets_available], never above
    [max_tickets]. *)
Theorem reachable_ledger s :
  reachable s →
  tickets_available s ≤ max_tickets s
  ∧ size (players s) = max_tickets s - tickets_available s
  ∧ size (players s) ≤ max_tickets s
  ∧ ∀ k, is_Some (players s !! k) ↔ k < max_tickets s - tickets_available s.
Proof.
  intros [Hd Hle Hsz]%reachable_wf.
  split; [done|]. split; [done|]. split; [lia|].
  intros k. rewrite <- Hsz. by apply dense_lookup.
Qed.

Lemma reachable_ledger_witness :
  let s := bought 6 (paying bob (tez 6)) init in
  tickets_available s ≤ max_tickets s
  ∧ size (players s) = max_tickets s - tickets_available s
  ∧ size (players s) ≤ max_tickets s
  ∧ ∀ k, is_Some (players s !! k) ↔ k < max_tickets s - tickets_available s.
Proof.
  apply (reachable_ledger (bought 6 (paying bob (tez 6)) init)), reachable_bought_six.
Defined.

(** X2. No call changes [admin]: in every reachable storage it is the
    address [__init__] wrote. *)
Theorem admin_never_changes s :
  reachable s → admin s = admin init.
Proof.
  induction 1 as [|c ctx s s' ops _ IH Ht]; [done|].
  by rewrite (admin_step _ _ _ _ _ Ht).
Qed.

Lemma admin_never_changes_witness :
  admin (bought 6 (paying bob (tez 6)) init) = admin init.
Proof.
  apply (admin_never_changes (bought 6 (paying bob (tez 6)) init)), reachable_bought_six.
Defined.

(** X3. The ways [end_game] ends, in the order of its checks: tickets left,
    [RoundNotFinished]; a time before the origin, the failure of
    [sp.as_nat]; no capacity, the division by zero; no ticket under the
    drawn index, the missing key; otherwise it commits.  Whenever it fails the
    storage is as before and nothing was sent. *)
Theorem end_game_failures ctx s :
  (tickets_available s ≠ 0 →
   exec EndGame ctx s = (Failed RoundNotFinished, mk_machine s []))
  ∧ (tickets_available s = 0 → (now ctx < 0)%Z →
     exec EndGame ctx s = (Failed AsNatNegative, mk_machine s []))
  ∧ (tickets_available s = 0 → (0 ≤ now ctx)%Z → max_tickets s = 0 →
     exec EndGame ctx s = (Failed DivisionByZero, mk_machine s []))
  ∧ (tickets_available s = 0 → (0 ≤ now ctx)%Z → max_tickets s ≠ 0 →
     players s !! (Z.to_nat (now ctx) mod max_tickets s) = None →
     exec EndGame ctx s = (Failed MissingKey, mk_machine s []))
  ∧ (tickets_available s = 0 → (0 ≤ now ctx)%Z → max_tickets s ≠ 0 →
     ∀ w, players s !! (Z.to_nat (now ctx) mod max_tickets s) = Some w →
     exec EndGame ctx s
     = (Done tt, mk_machine (fresh s) [Transfer w (balance ctx)]))
  ∧ (∀ f m, exec EndGame ctx s = (Failed f, m) → m = mk_machine s []).
Proof.
  rewrite end_game_run.
  destruct (Nat.eqb_spec (tickets_available s) 0) as [Hta|Hta];
    [|repeat split; intros; congruence].
  destruct (Z.ltb_spec (now ctx) 0) as [Hnow|Hnow];
    [repeat split; intros; (congruence || lia)|].
  destruct (Nat.eqb_spec (max_tickets s) 0) as [Hmax|Hmax];
    [repeat split; intros; (congruence || lia)|].
  destruct (players s !! _) as [w|] eqn:Hw;
    repeat split; intros; (congruence || lia).
Qed.

(** X4. [end_game] checks no caller and uses no attached amount: two calls
    at the same time, with the same balance held, end the same way whoever
    makes them. *)
Theorem end_game_any_caller ctx ctx' s :
  now ctx = now ctx' → balance ctx = balance ctx' →
  exec EndGame ctx s = exec EndGame ctx' s.
Proof. intros Hnow Hbal. by rewrite !end_game_run, Hnow, Hbal. Qed.

Lemma end_game_any_caller_witness :
  exec EndGame (mk_context (admin init) 0 20 (tez 5)) sold_out
  = exec EndGame (mk_context john (tez 1) 20 (tez 5)) sold_out.
Proof.
  apply (end_game_any_caller (mk_context (admin init) 0 20 (tez 5))
           (mk_context john (tez 1) 20 (tez 5)) sold_out); reflexivity.
Defined.

(** X5. On a ledger with dense indices a committed [buy_ticket(n)] grants
    [min(n, tickets_available)] tickets: that many new entries for the caller
    at the next indices, every ticket sold earlier still with its holder,
    [tickets_available] lowered by the same number, and the cost, the capacity
    and the admin as they were. *)
Theorem buy_ticket_grants n ctx s s' ops :
  dense (players s) →
  transact (BuyTicket n) ctx s = inr (s', ops) →
  let granted := n `min` tickets_available s in
  tickets_available s' = tickets_available s - granted
  ∧ size (players s') = size (players s) + granted
  ∧ (∀ k, k < size (players s) → players s' !! k = players s !! k)
  ∧ (∀ k, size (players s) ≤ k < size (players s) + granted →
          players s' !! k = Some (sender ctx))
  ∧ (∀ k, size (players s) + granted ≤ k → players s' !! k = None)
  ∧ ticket_cost s' = ticket_cost s
  ∧ max_tickets s' = max_tickets s
  ∧ admin s' = admin s.
Proof.
  intros Hd (_ & _ & -> & _)%transact_buy_ticket. simpl.
  rewrite <- can_buy_min.
  split; [done|]. split; [by apply size_append_tickets|].
  split; [|split; [|split; [|done]]]; intros k Hk;
    rewrite lookup_append_tickets by done; case_decide; try lia; try done.
  apply eq_None_not_Some. rewrite dense_lookup by done. lia.
Qed.

Lemma buy_ticket_grants_witness :
  let s := mk_storage {[0 := bob]} (tez 1) 4 5 (admin init) in
  let s' := mk_storage {[0 := bob; 1 := mike; 2 := mike]} (tez 1) 2 5 (admin init) in
  let granted := 2 `min` tickets_available s in
  tickets_available s' = tickets_available s - granted
  ∧ size (players s') = size (players s) + granted
  ∧ (∀ k, k < size (players s) → players s' !! k = players s !! k)
  ∧ (∀ k, size (players s) ≤ k < size (players s) + granted →
          players s' !! k = Some mike)
  ∧ (∀ k, size (players s) + granted ≤ k → players s' !! k = None)
  ∧ ticket_cost s' = ticket_cost s
  ∧ max_tickets s' = max_tickets s
  ∧ admin s' = admin s.
Proof.
  apply (buy_ticket_grants 2 (paying mike (tez 2))
           (mk_storage {[0 := bob]} (tez 1) 4 5 (admin init))
           (mk_storage {[0 := bob; 1 := mike; 2 := mike]} (tez 1) 2 5 (admin init))
           []).
  - vm_compute. reflexivity.
  - vm_compute. reflexivity.
Defined.

Lemma append_tickets_add a b who (p : gmap nat address) :
  append_tickets (a + b) who p = append_tickets b who (append_tickets a who p).
Proof. revert p. induction a as [|a IH]; intros p; simpl; [done|apply IH]. Qed.

Lemma refund_to_refund who n ctx s :
  who = sender ctx →
  refund_to who (refund n ctx s) = (amount ctx - total_cost n s)%N.
Proof.
  intros ->. unfold refund.
  destruct (N.ltb_spec (total_cost n s) (amount ctx)); simpl; [|lia].
  rewrite bool_decide_eq_true_2 by done. lia.
Qed.

(** X6. Two purchases in a row by one caller leave the storage that a
    single purchase of the two requests together leaves, and cost together
    what it costs; with the two amounts attached to it, the single purchase
    commits and refunds what the two refunded. *)
Theorem buy_ticket_twice n1 n2 ctx1 ctx2 s s1 s2 ops1 ops2 :
  transact (BuyTicket n1) ctx1 s = inr (s1, ops1) →
  transact (BuyTicket n2) ctx2 s1 = inr (s2, ops2) →
  sender ctx2 = sender ctx1 →
  let ctx :=
    mk_context (sender ctx1) (amount ctx1 + amount ctx2) (now ctx2) (balance ctx2) in
  (total_cost n1 s + total_cost n2 s1 = total_cost (n1 + n2) s)%N
  ∧ ∃ ops,
      transact (BuyTicket (n1 + n2)) ctx s = inr (s2, ops)
      ∧ refund_to (sender ctx1) ops
        = (refund_to (sender ctx1) ops1 + refund_to (sender ctx1) ops2)%N.
Proof.
  intros H1 H2 Hsender ctx.
  apply transact_buy_ticket in H1 as (Hta1 & Hp1 & -> & ->).
  apply transact_buy_ticket in H2 as (Hta2 & Hp2 & -> & ->).
  assert (Hcb : can_buy (n1 + n2) s
                = can_buy n1 s + can_buy n2 (bought n1 ctx1 s)).
  { rewrite !can_buy_min. simpl. rewrite can_buy_min. lia. }
  assert (Hcost : (total_cost n1 s + total_cost n2 (bought n1 ctx1 s)
                   = total_cost (n1 + n2) s)%N).
  { unfold total_cost. rewrite Hcb. simpl. lia. }
  split; [done|].
  exists (refund (n1 + n2) ctx s). split.
  - unfold transact. rewrite buy_ticket_run.
    destruct (Nat.eqb_spec (tickets_available s) 0); [lia|].
    destruct (N.ltb_spec (amount ctx) (total_cost (n1 + n2) s)) as [Hlt|_];
      [subst ctx; simpl in Hlt; lia|].
    f_equal. f_equal. unfold bought. simpl. fold (bought n1 ctx1 s).
    rewrite Hcb, append_tickets_add, Hsender. f_equal. lia.
  - rewrite !refund_to_refund by done. rewrite <- Hcost. subst ctx. simpl. lia.
Qed.

Lemma buy_ticket_twice_witness :
  (total_cost 1 init
   + total_cost 2 (mk_storage {[0%nat := bob]} (tez 1) 4%nat 5%nat (admin init))
   = total_cost (1 + 2)%nat init)%N
  ∧ ∃ ops,
      transact (BuyTicket (1 + 2)) (mk_context bob (tez 2 + tez 2) 0 (tez 3)) init
      = inr (mk_storage {[0 := bob; 1 := bob; 2 := bob]} (tez 1) 2 5 (admin init),
             ops)
      ∧ refund_to bob ops
        = (refund_to bob [Transfer bob (tez 1)] + refund_to bob [])%N.
Proof.
  apply (buy_ticket_twice 1 2 (paying bob (tez 2))
           (mk_context bob (tez 2) 0 (tez 3)) init
           (mk_storage {[0 := bob]} (tez 1) 4 5 (admin init))
           (mk_storage {[0 := bob; 1 := bob; 2 := bob]} (tez 1) 2 5 (admin init))
           [Transfer bob (tez 1)] []).
  - vm_compute. reflexivity.
  - vm_compute. reflexivity.
  - reflexivity.
Defined.

(** X7. In a reachable storage the guard [tickets_available == max_tickets]
    of the two configuration entry points means that no ticket is sold: when
    [change_ticket_cost] or [change_max_tickets] commits, the ledger is empty
    before and after, and nothing is sent. *)
Theorem config_change_on_empty_ledger c ctx s s' ops :
  reachable s →
  (∀ n, c ≠ BuyTicket n) → c ≠ EndGame →
  transact c ctx s = inr (s', ops) →
  players s = ∅ ∧ players s' = ∅ ∧ ops = []
  ∧ tickets_available s' = max_tickets s'.
Proof.
  intros [_ Hle Hsz]%reachable_wf Hbuy Hend Ht.
  destruct c as [n|x|n|]; [by destruct (Hbuy n)| | |done].
  - apply transact_change_ticket_cost in Ht as (_ & Hfresh & -> & ->).
    assert (players s = ∅) by (apply map_size_empty_inv; lia). done.
  - apply transact_change_max_tickets in Ht as (_ & Hfresh & -> & ->).
    assert (players s = ∅) by (apply map_size_empty_inv; lia). done.
Qed.

Lemma config_change_on_empty_ledger_witness :
  players init = ∅
  ∧ players (mk_storage ∅ (tez 1) 10 10 (admin init)) = ∅
  ∧ @nil operation = []
  ∧ tickets_available (mk_storage ∅ (tez 1) 10 10 (admin init))
    = max_tickets (mk_storage ∅ (tez 1) 10 10 (admin init)).
Proof.
  apply (config_change_on_empty_ledger (ChangeMaxTickets 10)
           (paying (admin init) 0) init
           (mk_storage ∅ (tez 1) 10 10 (admin init)) []).
  - constructor.
  - intros n. discriminate.
  - discriminate.
  - vm_compute. reflexivity.
Defined.

(** X8. Which call can commit is fixed by the phase of the round: once a
    ticket is sold and until the last one is, only [buy_ticket]; when a round
    of some capacity is sold out, only [end_game]; and [end_game] never while
    a ticket is left. *)
Theorem committed_call_by_phase c ctx s s' ops :
  transact c ctx s = inr (s', ops) →
  (tickets_available s ≠ 0 → tickets_available s ≠ max_tickets s →
   ∃ n, c = BuyTicket n)
  ∧ (tickets_available s = 0 → max_tickets s ≠ 0 → c = EndGame)
  ∧ (tickets_available s ≠ 0 → c ≠ EndGame).
Proof.
  intros Ht. destruct c as [n|x|n|].
  - apply transact_buy_ticket in Ht as (Hta & _).
    repeat split; intros; try done; try lia. eauto.
  - apply transact_change_ticket_cost in Ht as (_ & Hfresh & _).
    repeat split; intros; try done; lia.
  - apply transact_change_max_tickets in Ht as (_ & Hfresh & _).
    repeat split; intros; try done; lia.
  - apply transact_end_game in Ht as (Hta & _).
    repeat split; intros; try done; lia.
Qed.

Lemma committed_call_by_phase_witness :
  let s := mk_storage {[0 := bob]} (tez 1) 4 5 (admin init) in
  (tickets_available s ≠ 0 → tickets_available s ≠ max_tickets s →
   ∃ n, BuyTicket 2 = BuyTicket n)
  ∧ (tickets_available s = 0 → max_tickets s ≠ 0 → BuyTicket 2 = EndGame)
  ∧ (tickets_available s ≠ 0 → BuyTicket 2 ≠ EndGame).
Proof.
  apply (committed_call_by_phase (BuyTicket 2) (paying mike (tez 2))
           (mk_storage {[0 := bob]} (tez 1) 4 5 (admin init))
           (mk_storage {[0 := bob; 1 := mike; 2 := mike]} (tez 1) 2 5 (admin init))
           []).
  vm_compute. reflexivity.
Defined.

(** X9. With no capacity the lottery is stuck: when [max_tickets] and
    [tickets_available] are both 0, neither [buy_ticket] nor [end_game] can
    commit, and the only calls that do are the admin's configuration
    changes. *)
Theorem zero_capacity_stuck c ctx s s' ops :
  max_tickets s = 0 → tickets_available s = 0 →
  transact c ctx s = inr (s', ops) →
  sender ctx = admin s
  ∧ ((∃ x, c = ChangeTicketCost x) ∨ (∃ n, c = ChangeMaxTickets n)).
Proof.
  intros Hmax Hta Ht. destruct c as [n|x|n|].
  - apply transact_buy_ticket in Ht as (? & _). lia.
  - apply transact_change_ticket_cost in Ht as (? & _). eauto.
  - apply transact_change_max_tickets in Ht as (? & _). eauto.
  - apply transact_end_game in Ht as (_ & _ & ? & _). lia.
Qed.

Lemma zero_capacity_stuck_witness :
  sender (paying (admin init) 0) = admin (mk_storage ∅ (tez 1) 0 0 (admin init))
  ∧ ((∃ x, ChangeMaxTickets 5 = ChangeTicketCost x)
     ∨ (∃ n, ChangeMaxTickets 5 = ChangeMaxTickets n)).
Proof.
  apply (zero_capacity_stuck (ChangeMaxTickets 5) (paying (admin init) 0)
           (mk_storage ∅ (tez 1) 0 0 (admin init)) init []).
  - reflexivity.
  - reflexivity.
  - vm_compute. reflexivity.
Defined.

(** X10. A whole round by one buyer is a round trip: on a fresh round of
    some capacity, a request for at least all the tickets with their price
    attached commits, [end_game] at any time from the origin on then commits
    too, pays the balance to that buyer, and leaves the storage the round
    started from. *)
Theorem whole_round_round_trip n ctx ctx' s :
  players s = ∅ →
  tickets_available s = max_tickets s →
  0 < max_tickets s →
  max_tickets s ≤ n →
  (N.of_nat (max_tickets s) * ticket_cost s ≤ amount ctx)%N →
  (0 ≤ now ctx')%Z →
  ∃ s1 ops1,
    transact (BuyTicket n) ctx s = inr (s1, ops1)
    ∧ transact EndGame ctx' s1 = inr (s, [Transfer (sender ctx) (balance ctx')]).
Proof.
  intros Hempty Hfresh Hmax Hn Hpay Hnow.
  assert (Hcb : can_buy n s = max_tickets s) by (rewrite can_buy_min; lia).
  exists (bought n ctx s), (refund n ctx s). split.
  - unfold transact. rewrite buy_ticket_run.
    destruct (Nat.eqb_spec (tickets_available s) 0); [lia|].
    unfold total_cost. rewrite Hcb.
    by destruct (N.ltb_spec (amount ctx) (N.of_nat (max_tickets s) * ticket_cost s));
      [lia|].
  - unfold transact. rewrite end_game_run. simpl.
    rewrite Hcb, Hfresh, Nat.sub_diag, Hempty. simpl.
    destruct (Z.ltb_spec (now ctx') 0); [lia|].
    destruct (Nat.eqb_spec (max_tickets s) 0); [lia|].
    rewrite lookup_append_tickets by apply dense_empty.
    rewrite map_size_empty.
    pose proof (Nat.mod_upper_bound (Z.to_nat (now ctx')) (max_tickets s)).
    case_decide; [|lia].
    unfold fresh. simpl. destruct s; simpl in *. by subst.
Qed.

Lemma whole_round_round_trip_witness :
  ∃ s1 ops1,
    transact (BuyTicket 6) (paying bob (tez 6)) init = inr (s1, ops1)
    ∧ transact EndGame (at_time john 2023 (tez 5)) s1
      = inr (init, [Transfer bob (tez 5)]).
Proof.
  apply (whole_round_round_trip 6 (paying bob (tez 6)) (at_time john 2023 (tez 5)) init).
  - reflexivity.
  - reflexivity.
  - simpl. lia.
  - simpl. lia.
  - vm_compute. discriminate.
  - simpl. lia.
Defined.

(** X11. In a sold-out round every ticket can win, and the draw repeats
    with period [max_tickets]: at time [q * max_tickets + k], for a ticket
    index [k < max_tickets], [end_game] commits and pays the holder of ticket
    [k]. *)
Theorem every_ticket_can_win q k ctx s :
  dense (players s) →
  size (players s) = max_tickets s - tickets_available s →
  tickets_available s = 0 →
  k < max_tickets s →
  now ctx = Z.of_nat (q * max_tickets s + k) →
  ∃ w, players s !! k = Some w
    ∧ transact EndGame ctx s = inr (fresh s, [Transfer w (balance ctx)]).
Proof.
  intros Hd Hsz Hta Hk Hnow.
  destruct (proj2 (dense_lookup (players s) k Hd)) as [w Hw]; [lia|].
  exists w. split; [done|].
  unfold transact. rewrite end_game_run, Hta, Hnow. simpl.
  destruct (Z.ltb_spec (Z.of_nat (q * max_tickets s + k)) 0); [lia|].
  destruct (Nat.eqb_spec (max_tickets s) 0); [lia|].
  rewrite Nat2Z.id, Nat.add_comm, Nat.Div0.mod_add, Nat.mod_small by done.
  by rewrite Hw.
Qed.

Lemma every_ticket_can_win_witness :
  ∃ w, players sold_out !! 3 = Some w
    ∧ transact EndGame (at_time john 2023 (tez 5)) sold_out
      = inr (fresh sold_out, [Transfer w (balance (at_time john 2023 (tez 5)))]).
Proof.
  apply (every_ticket_can_win 404 3 (at_time john 2023 (tez 5)) sold_out).
  - vm_compute. reflexivity.
  - vm_compute. reflexivity.
  - reflexivity.
  - simpl. lia.
  - reflexivity.
Defined.

Lemma filter_agree {A} (P1 P2 : A → Prop)
    `{!∀ x, Decision (P1 x), !∀ x, Decision (P2 x)} (l : list A) :
  (∀ x, x ∈ l → P1 x ↔ P2 x) → filter P1 l = filter P2 l.
Proof.
  induction l as [|a l IH]; intros Hiff; [done|].
  assert (Ha : P1 a ↔ P2 a) by (apply Hiff; left).
  assert (Hl : filter P1 l = filter P2 l).
  { apply IH. intros x Hx. apply Hiff. by right. }
  destruct (decide (P1 a)).
  - rewrite !filter_cons_True by tauto. by rewrite Hl.
  - rewrite !filter_cons_False by tauto. done.
Qed.

(** Counting the indices below [n] that [who] holds counts the entries of
    [who], when the ledger has no key from [n] on. *)
Lemma holders_counted who n (p : gmap nat address) :
  (∀ k, is_Some (p !! k) → k < n) →
  length (filter (λ k, p !! k = Some who) (seq 0 n)) = tickets_held who p.
Proof.
  unfold tickets_held. revert p. induction n as [|n IH]; intros p Hkeys.
  - assert (p = ∅) as ->.
    { apply map_empty. intros i. apply eq_None_not_Some. intros Hi.
      apply Hkeys in Hi. lia. }
    by rewrite map_filter_empty, map_size_empty.
  - rewrite seq_S, filter_app, length_app. simpl.
    assert (Hrest : filter (λ k, p !! k = Some who) (seq 0 n)
                    = filter (λ k, delete n p !! k = Some who) (seq 0 n)).
    { apply filter_agree. intros k Hk. apply elem_of_seq in Hk.
      rewrite lookup_delete_ne by lia. done. }
    rewrite Hrest, IH, map_filter_delete, map_size_delete.
    + destruct (decide (p !! n = Some who)) as [Hn|Hn].
      * rewrite filter_cons_True by done. simpl.
        assert (Hf : filter (λ kv : nat * address, kv.2 = who) p !! n = Some who)
          by (by apply map_lookup_filter_Some).
        rewrite Hf.
        assert (size (filter (λ kv : nat * address, kv.2 = who) p) ≠ 0).
        { intros Hz. apply map_size_empty_inv in Hz. by rewrite Hz in Hf. }
        lia.
      * rewrite filter_cons_False by done. simpl.
        destruct (filter (λ kv : nat * address, kv.2 = who) p !! n) as [w|] eqn:Hf;
          [|simpl; lia].
        apply map_lookup_filter_Some in Hf as [Hp Hw]. simpl in Hw. by subst.
    + intros k [w Hk]. destruct (decide (k = n)) as [->|Hne].
      * by rewrite lookup_delete_eq in Hk.
      * rewrite lookup_delete_ne in Hk by done.
        assert (k < S n) by (apply Hkeys; eauto). lia.
Qed.

Lemma pays_to_run ctx s :
  pays_to ctx s
  = if tickets_available s =? 0
    then if (now ctx <? 0)%Z then None
         else if max_tickets s =? 0 then None
         else players s !! (Z.to_nat (now ctx) mod max_tickets s)
    else None.
Proof.
  unfold pays_to. rewrite end_game_run.
  destruct (tickets_available s =? 0); [|done].
  destruct (now ctx <? 0)%Z; [done|].
  destruct (max_tickets s =? 0); [done|].
  by destruct (players s !! _).
Qed.

(** X12. More tickets, more chances: in a sold-out round, within each
    full period of [max_tickets] instants, the instants at which [end_game]
    would pay a participant are as many as the tickets the participant
    holds. *)
Theorem win_chances_are_tickets who q bal s :
  dense (players s) →
  size (players s) = max_tickets s - tickets_available s →
  tickets_available s = 0 →
  length (winning_instants who q bal s) = tickets_held who (players s).
Proof.
  intros Hd Hsz Hta. unfold winning_instants.
  rewrite <- (holders_counted who (max_tickets s)).
  - f_equal. apply filter_agree. intros k Hk. apply elem_of_seq in Hk.
    rewrite pays_to_run, Hta. simpl.
    destruct (Z.ltb_spec (Z.of_nat (q * max_tickets s + k)) 0); [lia|].
    destruct (Nat.eqb_spec (max_tickets s) 0); [lia|].
    rewrite Nat2Z.id, Nat.add_comm, Nat.Div0.mod_add, Nat.mod_small by lia.
    done.
  - intros k Hk. apply dense_lookup in Hk; [lia|done].
Qed.

Lemma win_chances_are_tickets_witness :
  length (winning_instants mike 4 (tez 5) sold_out)
  = tickets_held mike (players sold_out).
Proof.
  apply (win_chances_are_tickets mike 4 (tez 5) sold_out).
  - vm_compute. reflexivity.
  - vm_compute. reflexivity.
  - reflexivity.
Defined.

Example win_chances_mike :
  winning_instants mike 4 (tez 5) sold_out = [1; 2]
  ∧ tickets_held mike (players sold_out) = 2.
Proof. split; vm_compute; reflexivity. Qed.

Lemma sent_refund n ctx s :
  (total_cost n s ≤ amount ctx)%N →
  sent (refund n ctx s) = (amount ctx - total_cost n s)%N.
Proof.
  intros Hpay. unfold refund.
  destruct (N.ltb_spec (total_cost n s) (amount ctx)); simpl; lia.
Qed.

(** One committed call, with the attached amount credited to the balance
    before it and the transfers debited after it. *)
Lemma pot_step c ctx s s' ops bal :
  wf s → pot_covers s bal →
  balance ctx = (bal + amount ctx)%N →
  transact c ctx s = inr (s', ops) →
  pot_covers s' (bal + amount ctx - sent ops).
Proof.
  intros [Hd Hle Hsz] Hpot Hbal Ht. unfold pot_covers in *. destruct c.
  - apply transact_buy_ticket in Ht as (_ & Hpay & -> & ->).
    rewrite sent_refund by done. simpl.
    rewrite size_append_tickets by done.
    unfold total_cost in *. lia.
  - apply transact_change_ticket_cost in Ht as (_ & Hfresh & -> & ->). simpl.
    replace (size (players s)) with 0 by lia. lia.
  - apply transact_change_max_tickets in Ht as (_ & Hfresh & -> & ->). simpl.
    replace (size (players s)) with 0 by lia. lia.
  - apply transact_end_game in Ht as (_ & _ & _ & -> & _). simpl.
    rewrite map_size_empty. lia.
Qed.

Lemma replay_pot calls s bal :
  wf s → pot_covers s bal →
  wf (replay calls s bal).1.2
  ∧ pot_covers (replay calls s bal).1.2 (replay calls s bal).2.
Proof.
  revert s bal. induction calls as [|r rest IH]; intros s bal Hwf Hpot; [done|].
  simpl.
  destruct (transact _ _ s) as [e|[s' ops]] eqn:Ht.
  - specialize (IH s bal Hwf Hpot).
    destruct (replay rest s bal) as [[valid s''] bal']. done.
  - assert (Hwf' : wf s') by (by eapply wf_step).
    assert (Hpot' : pot_covers s' (bal + run_amount r - sent ops)).
    { by apply (pot_step _ _ _ _ _ bal Hwf Hpot) in Ht. }
    specialize (IH s' _ Hwf' Hpot').
    destruct (replay rest s' _) as [[valid s''] bal']. done.
Qed.

(** X13. The pot covers the tickets: whatever calls are made, in whatever
    order, with each attached amount credited to the contract, each transfer
    of a committed call debited and each failed call undone, the balance held
    is at least [ticket_cost] times the number of tickets sold in the round;
    a refund never takes from what the tickets cost. *)
Theorem pot_covers_tickets calls bal0 :
  pot_covers (replay calls init bal0).1.2 (replay calls init bal0).2.
Proof.
  apply replay_pot; [apply wf_init|].
  unfold pot_covers. simpl. rewrite map_size_empty. lia.
Qed.

Lemma tickets_held_append g buyer who (p : gmap nat address) :
  dense p →
  tickets_held who (append_tickets g buyer p)
  = tickets_held who p + (if decide (buyer = who) then g else 0).
Proof.
  revert p. induction g as [|g IH]; intros p Hd; simpl.
  - case_decide; lia.
  - rewrite IH by (by apply dense_insert_next).
    pose proof (dense_next_free p Hd) as Hfree.
    unfold tickets_held. case_decide as Hwho.
    + rewrite map_filter_insert_True by done.
      rewrite map_size_insert_None; [lia|].
      apply map_lookup_filter_None. by left.
    + rewrite map_filter_insert_False by done.
      rewrite delete_id by done. lia.
Qed.

(** X14. Holdings after a purchase: on a ledger with dense indices a
    committed [buy_ticket(n)] raises the number of tickets the caller holds by
    [min(n, tickets_available)] and leaves everyone else's as it was. *)
Theorem buy_ticket_holdings n ctx s s' ops who :
  dense (players s) →
  transact (BuyTicket n) ctx s = inr (s', ops) →
  tickets_held who (players s')
  = tickets_held who (players s)
    + (if decide (sender ctx = who) then n `min` tickets_available s else 0).
Proof.
  intros Hd (_ & _ & -> & _)%transact_buy_ticket. simpl.
  rewrite tickets_held_append by done. by rewrite can_buy_min.
Qed.

Lemma buy_ticket_holdings_witness :
  let s := mk_storage {[0 := bob; 1 := mike; 2 := mike]} (tez 1) 2 5 (admin init) in
  let ctx := paying charles (tez 5) in
  tickets_held charles (players sold_out)
  = tickets_held charles (players s)
    + (if decide (sender ctx = charles) then 7 `min` tickets_available s else 0).
Proof.
  apply (buy_ticket_holdings 7 (paying charles (tez 5))
           (mk_storage {[0 := bob; 1 := mike; 2 := mike]} (tez 1) 2 5 (admin init))
           sold_out [Transfer charles (tez 3)] charles).
  - vm_compute. reflexivity.
  - vm_compute. reflexivity.
Defined.

(** X15. The payout goes to a ticket holder: when [end_game] commits, its
    one transfer is to an address that holds at least one ticket of the round
    being ended. *)
Theorem winner_holds_ticket ctx s s' ops :
  transact EndGame ctx s = inr (s', ops) →
  ∃ w, ops = [Transfer w (balance ctx)] ∧ 0 < tickets_held w (players s).
Proof.
  intros (_ & _ & _ & _ & w & Hw & ->)%transact_end_game.
  exists w. split; [done|]. unfold tickets_held.
  assert (Hf : filter (λ kv : nat * address, kv.2 = w) (players s)
               !! (Z.to_nat (now ctx) mod max_tickets s) = Some w)
    by (by apply map_lookup_filter_Some).
  destruct (size (filter (λ kv : nat * address, kv.2 = w) (players s))) eqn:Hz;
    [|lia].
  apply map_size_empty_inv in Hz. by rewrite Hz in Hf.
Qed.

Lemma winner_holds_ticket_witness :
  ∃ w, [Transfer charles (tez 5)] = [Transfer w (balance (at_time john 2023 (tez 5)))]
    ∧ 0 < tickets_held w (players sold_out).
Proof.
  apply (winner_holds_ticket (at_time john 2023 (tez 5)) sold_out init
           [Transfer charles (tez 5)]).
  vm_compute. reflexivity.
Defined.
